(** * Shallow embedding of [hackernews/client.py]

    The core is [async_fetch_urls]: fetch a list of URLs concurrently
    ([asyncio.gather]), and, while [recursive > 0], fetch the ['kids'] (or
    ['submitted']) of every fetched item with [recursive - 1].

    Effects are modelled by a writer-and-error monad [M]: the writer part is
    the log of the URLs requested (in the order the tasks are scheduled),
    the error part is the exception that escapes the coroutine. *)

From Stdlib Require Import List ZArith String Ascii Bool Lia.
Import ListNotations.
Open Scope Z_scope.
Set Warnings "-register-all".

(** ** JSON values as returned by [response.json()]

    Numbers are integers (HN ids and counters); an object is an
    association list with distinct keys, as [json.loads] builds it. *)
Inductive json : Type :=
| JNull
| JBool (b : bool)
| JInt (z : Z)
| JStr (s : string)
| JList (l : list json)
| JDict (d : list (string * json)).

(** Exceptions that can escape [async_fetch_urls]: the three failures of
    one fetch (timeout, aiohttp transport error, invalid JSON body), and the
    Python errors raised by [item.get] / [for kid in kids] on items of an
    unexpected shape. *)
Inductive exn : Type :=
| TimeoutError
| TransportError
| ParseError
| AttributeError
| TypeError.

Inductive result (A : Type) : Type :=
| Ok (a : A)
| Err (e : exn).
Arguments Ok {A} a.
Arguments Err {A} e.

(** Python truthiness, used by [if item:] and by [a or b or []]. *)
Definition truthy (j : json) : bool :=
  match j with
  | JNull => false
  | JBool b => b
  | JInt z => negb (z =? 0)
  | JStr s => negb (String.eqb s EmptyString)
  | JList l => match l with [] => false | _ => true end
  | JDict d => match d with [] => false | _ => true end
  end.

Fixpoint dict_get (d : list (string * json)) (k : string) : option json :=
  match d with
  | [] => None
  | (k', v) :: d' => if String.eqb k k' then Some v else dict_get d' k
  end.

(** [item.get(k)]: [None] (here [JNull]) when the key is missing;
    [AttributeError] when [item] is not a dict. *)
Definition py_get (item : json) (k : string) : result json :=
  match item with
  | JDict d => Ok (match dict_get d k with Some v => v | None => JNull end)
  | _ => Err AttributeError
  end.

(** [for kid in kids]: the elements a Python iteration over a JSON value
    yields. *)
Definition py_iter (j : json) : result (list json) :=
  match j with
  | JList l => Ok l
  | JStr s => Ok (map (fun c => JStr (String c EmptyString)) (list_ascii_of_string s))
  | JDict d => Ok (map (fun kv => JStr (fst kv)) d)
  | _ => Err TypeError
  end.

(** [kids = item.get('kids') or item.get('submitted') or []], iterated. *)
Definition child_ids (item : json) : result (list json) :=
  match py_get item "kids" with
  | Err e => Err e
  | Ok k =>
      if truthy k then py_iter k
      else match py_get item "submitted" with
           | Err e => Err e
           | Ok s => if truthy s then py_iter s else py_iter (JList [])
           end
  end.

(** ** The writer-and-error monad *)
Section Client.

Variable url : Type.
(** [ITEM_URL.format(kid)] *)
Variable item_url : json -> url.
(** [async_fetch_url(url, session)]: the parsed body or the failure. *)
Variable fetch : url -> result json.
(** The exception [asyncio.gather] reports when some tasks fail: the one
    of the first failing task to complete, which depends on timing; it is
    given the failures in task order. *)
Variable gather_pick : exn -> list exn -> exn.

Definition M (A : Type) : Type := (list url * result A)%type.

Definition ret {A} (a : A) : M A := ([], Ok a).

Definition bind {A B} (m : M A) (f : A -> M B) : M B :=
  match m with
  | (w, Err e) => (w, Err e)
  | (w, Ok a) => let (w', r) := f a in (w ++ w', r)
  end.

Definition lift {A} (r : result A) : M A := ([], r).

Local Notation "x <- m ;; f" := (bind m (fun x => f))
  (at level 61, m at next level, right associativity).

Fixpoint failures (rs : list (result json)) : list exn :=
  match rs with
  | [] => []
  | Ok _ :: rs' => failures rs'
  | Err e :: rs' => e :: failures rs'
  end.

Fixpoint successes (rs : list (result json)) : list json :=
  match rs with
  | [] => []
  | Ok a :: rs' => a :: successes rs'
  | Err _ :: rs' => successes rs'
  end.

Definition gather_result (rs : list (result json)) : result (list json) :=
  match failures rs with
  | [] => Ok (successes rs)
  | e :: es => Err (gather_pick e es)
  end.

(** [tasks = [ensure_future(async_fetch_url(url, session)) for url in urls]]
    followed by [items = await asyncio.gather( *tasks)]: every request is
    issued, the results come back in task order. *)
Definition gather (urls : list url) : M (list json) :=
  (urls, gather_result (map fetch urls)).

(** [for i, item in enumerate(items): ...  new_items += ...] *)
Fixpoint for_items (body : json -> M (list json)) (items : list json)
  : M (list json) :=
  match items with
  | [] => ret []
  | item :: rest =>
      sub <- body item ;;
      more <- for_items body rest ;;
      ret (sub ++ more)
  end.

(** The loop body; [sub] is the recursive call [async_fetch_urls]. *)
Definition expand_item (sub : list url -> Z -> M (list json))
    (recursive : Z) (item : json) : M (list json) :=
  if truthy item then
    kids <- lift (child_ids item) ;;
    match map item_url kids with
    | [] => ret []
    | urls => sub urls (recursive - 1)
    end
  else ret [].

(** [async_fetch_urls] with a fuel argument bounding the recursion depth;
    the entry point below passes [Z.to_nat recursive], enough for every
    level (each level lowers [recursive] by one). *)
Fixpoint walk (fuel : nat) (urls : list url) (recursive : Z) : M (list json) :=
  items <- gather urls ;;
  if 0 <? recursive then
    match fuel with
    | O => ret items
    | S fuel' =>
        new_items <- for_items (expand_item (walk fuel') recursive) items ;;
        ret (items ++ new_items)
    end
  else ret items.

Definition async_fetch_urls (urls : list url) (recursive : Z) : M (list json) :=
  walk (Z.to_nat recursive) urls recursive.

(** ** Which fetches and which failures belong to one expansion

    [fetched_in r ids r' u]: the call [async_fetch_urls ids r] reaches a
    level whose budget is [r'] and whose URL list contains [u], every
    ancestor on the way having been fetched and expanded successfully. *)
Inductive fetched_in : Z -> list url -> Z -> url -> Prop :=
| fetched_here r ids u :
    In u ids -> fetched_in r ids r u
| fetched_below r ids v it kids r' u :
    0 < r -> In v ids -> fetch v = Ok it -> truthy it = true ->
    child_ids it = Ok kids ->
    fetched_in (r - 1) (map item_url kids) r' u ->
    fetched_in r ids r' u.

(** [raised r ids e]: [e] is raised by one step of that expansion: a fetch,
    or the extraction of the children of a fetched item. *)
Inductive raised (r : Z) (ids : list url) : exn -> Prop :=
| raised_fetch r' u e :
    fetched_in r ids r' u -> fetch u = Err e -> raised r ids e
| raised_child r' u it e :
    fetched_in r ids r' u -> 0 < r' -> fetch u = Ok it ->
    truthy it = true -> child_ids it = Err e -> raised r ids e.

End Client.

(** A child-list field of a JSON object, as the HN API serves it: missing,
    [null] or an array of ids. *)
Definition list_field (d : list (string * json)) (k : string) (l : list json)
  : Prop :=
  match dict_get d k with
  | None => l = []
  | Some JNull => l = []
  | Some (JList l') => l = l'
  | Some _ => False
  end.

(** An item the HN API can serve: [null], [{}], or an object whose child
    lists are missing, [null] or arrays. *)
Definition well_formed (it : json) : Prop :=
  truthy it = false \/
  exists d ks ss, it = JDict d /\ list_field d "kids" ks /\ list_field d "submitted" ss.

(** ** The synchronous driver and the command line *)

(** What escapes [fetch_urls]: the items, an exception of the coroutine,
    or the [RuntimeError('Event loop is closed')] of [run_until_complete]. *)
Inductive outcome (A : Type) : Type :=
| Done (a : A)
| Raised (e : exn)
| LoopClosed.
Arguments Done {A} a.
Arguments Raised {A} e.
Arguments LoopClosed {A}.

(** [str(n)] for a natural number. *)
Fixpoint string_of_uint (d : Decimal.uint) : string :=
  match d with
  | Decimal.Nil => EmptyString
  | Decimal.D0 d' => String "0" (string_of_uint d')
  | Decimal.D1 d' => String "1" (string_of_uint d')
  | Decimal.D2 d' => String "2" (string_of_uint d')
  | Decimal.D3 d' => String "3" (string_of_uint d')
  | Decimal.D4 d' => String "4" (string_of_uint d')
  | Decimal.D5 d' => String "5" (string_of_uint d')
  | Decimal.D6 d' => String "6" (string_of_uint d')
  | Decimal.D7 d' => String "7" (string_of_uint d')
  | Decimal.D8 d' => String "8" (string_of_uint d')
  | Decimal.D9 d' => String "9" (string_of_uint d')
  end.

Definition string_of_nat (n : nat) : string := string_of_uint (Nat.to_uint n).

Section Driver.

Variable url : Type.
Variable item_url : json -> url.
Variable fetch : url -> result json.
Variable gather_pick : exn -> list exn -> exn.
(** [USER_URL.format(username)] *)
Variable user_url : string -> url.

(** [fetch_urls(urls, recursive)]. The boolean is the state of the event
    loop that [asyncio.get_event_loop()] returns: [true] once closed. A
    closed loop refuses [run_until_complete] before any request. The
    [loop.close()] after the [with] block only runs when
    [run_until_complete] returned; an exception skips it. *)
Definition fetch_urls (closed : bool) (urls : list url) (recursive : Z)
  : bool * (list url * outcome (list json)) :=
  if closed then (closed, ([], LoopClosed))
  else
    match async_fetch_urls url item_url fetch gather_pick urls recursive with
    | (w, Ok items) => (true, (w, Done items))
    | (w, Err e) => (closed, (w, Raised e))
    end.

(** [get_user_items(username, recursive)] *)
Definition get_user_items (closed : bool) (username : string) (recursive : Z)
  : bool * (list url * outcome (list json)) :=
  fetch_urls closed [user_url username] recursive.

(** The [__main__] block on a fresh event loop, with [--author] parsed to
    [author] ([None] when absent) and [--recursive] to [recursive]
    ([--verbose] only sets the log level); the result holds the lines
    printed on standard output. *)
Definition main (author : option string) (recursive : Z)
  : list url * outcome (list string) :=
  match author with
  | Some a =>
      if truthy (JStr a) then
        let '(_, (w, o)) := get_user_items false a recursive in
        match o with
        | Done data =>
            (w, Done [String.append "fetched "
                        (String.append (string_of_nat (List.length data)) " posts")])
        | Raised e => (w, Raised e)
        | LoopClosed => (w, LoopClosed)
        end
      else ([], Done [])
  | None => ([], Done [])
  end.

End Driver.

(** ** A concrete item store

    URLs are the kids themselves ([ITEM_URL.format] is the identity), items
    1..5 form the forest 1 -> 3 -> 5 and 2 -> 4, every other id is absent. *)
Definition hn_item (id : Z) (kids : list Z) : json :=
  JDict [("id"%string, JInt id); ("kids"%string, JList (map JInt kids))].

Definition tree_fetch (u : json) : result json :=
  match u with
  | JInt 1 => Ok (hn_item 1 [3])
  | JInt 2 => Ok (hn_item 2 [4])
  | JInt 3 => Ok (hn_item 3 [5])
  | JInt 4 => Ok (hn_item 4 [])
  | JInt 5 => Ok (hn_item 5 [])
  | JInt 6 => Ok (JDict [])
  | _ => Ok JNull
  end.

(** The same store whose server fails on item 5. *)
Definition failing_fetch (u : json) : result json :=
  match u with
  | JInt 5 => Err TransportError
  | _ => tree_fetch u
  end.

(** An HN user record with an empty ['kids'] and a non-empty
    ['submitted']. *)
Definition user_fields : list (string * json) :=
  [("id"%string, JInt 8); ("kids"%string, JList []);
   ("submitted"%string, JList [JInt 9; JInt 10])].

(** A store serving malformed items: an array (1) and an object whose
    ['kids'] is a number (2). *)
Definition odd_fetch (u : json) : result json :=
  match u with
  | JInt 1 => Ok (JList [JInt 2])
  | JInt 2 => Ok (JDict [("kids"%string, JInt 7)])
  | _ => tree_fetch u
  end.

(** A store in which every user profile is [user_fields]. *)
Definition user_fetch (u : json) : result json :=
  match u with
  | JStr _ => Ok (JDict user_fields)
  | _ => tree_fetch u
  end.

(** A store in which item 1 is its own only child. *)
Definition dup_fetch (u : json) : result json :=
  match u with
  | JInt 1 => Ok (hn_item 1 [1])
  | _ => Ok JNull
  end.

Definition first_pick (e : exn) (es : list exn) : exn := e.

Definition run (f : json -> result json) (ids : list json) (r : Z)
  : M json (list json) :=
  async_fetch_urls json (fun j => j) f first_pick ids r.

(** ** General facts about the embedding *)
Section Facts.

Variable url : Type.
Variable item_url : json -> url.
Variable fetch : url -> result json.
Variable gather_pick : exn -> list exn -> exn.

Local Abbreviation M := (M url).
Local Abbreviation ret := (@ret url _).
Local Abbreviation bind := (@bind url _ _).
Local Abbreviation gather := (gather url fetch gather_pick).
Local Abbreviation for_items := (for_items url).
Local Abbreviation expand_item := (expand_item url item_url).
Local Abbreviation afu := (async_fetch_urls url item_url fetch gather_pick).
Local Abbreviation fetched_in := (fetched_in url item_url fetch).
Local Abbreviation raised := (raised url item_url fetch).
Local Notation "x <- m ;; f" := (bind m (fun x => f))
  (at level 61, m at next level, right associativity).

Lemma bind_ok_inv {A B} (m : M A) (f : A -> M B) w b :
  bind m f = (w, Ok b) ->
  exists w1 a w2, m = (w1, Ok a) /\ f a = (w2, Ok b) /\ w = w1 ++ w2.
Proof.
  destruct m as [w1 [a | e]]; simpl; [| discriminate].
  destruct (f a) as [w2 r] eqn:Hf. intros H; inversion H; subst.
  eauto 7.
Qed.

Lemma bind_err_inv {A B} (m : M A) (f : A -> M B) w e :
  bind m f = (w, Err e) ->
  (exists w1, m = (w1, Err e)) \/
  (exists w1 a w2, m = (w1, Ok a) /\ f a = (w2, Err e)).
Proof.
  destruct m as [w1 [a | e']]; simpl.
  - destruct (f a) as [w2 r] eqn:Hf. intros H; inversion H; subst. eauto 6.
  - intros H; inversion H; subst. eauto.
Qed.

Lemma bind_err_l {A B} w e (f : A -> M B) :
  exists w', bind (w, Err e) f = (w', Err e).
Proof. simpl. eauto. Qed.

Lemma bind_ok_l {A B} w (a : A) (f : A -> M B) :
  bind (w, Ok a) f = (w ++ fst (f a), snd (f a)).
Proof. simpl. destruct (f a); reflexivity. Qed.

Lemma afu_unfold_pos urls r :
  0 < r ->
  afu urls r =
  items <- gather urls ;;
  new_items <- for_items (expand_item afu r) items ;;
  ret (items ++ new_items).
Proof.
  intros Hr. unfold async_fetch_urls at 1.
  replace (Z.to_nat r) with (S (Z.to_nat (r - 1))) by lia.
  simpl walk. replace (0 <? r) with true by (symmetry; apply Z.ltb_lt; lia).
  reflexivity.
Qed.

Lemma afu_unfold_nonpos urls r :
  r <= 0 -> afu urls r = gather urls.
Proof.
  intros Hr. unfold async_fetch_urls.
  replace (Z.to_nat r) with O by lia.
  simpl walk. replace (0 <? r) with false by (symmetry; apply Z.ltb_ge; lia).
  unfold gather. simpl. destruct (gather_result _ _); simpl;
    rewrite ?app_nil_r; reflexivity.
Qed.

Lemma gather_result_ok ids items :
  gather_result gather_pick (map fetch ids) = Ok items <->
  Forall2 (fun u it => fetch u = Ok it) ids items.
Proof.
  assert (Hgen : forall rs,
    (failures rs = [] /\ successes rs = items) <->
    Forall2 (fun r it => r = Ok it) rs items).
  { intros rs. revert items. induction rs as [| [a | e] rs IH]; intros items; simpl.
    - split; [intros [_ <-]; constructor | intros H; inversion H; auto].
    - split.
      + intros [Hf Hs]. destruct items as [| it items]; [discriminate |].
        inversion Hs; subst. constructor; [reflexivity | apply IH; auto].
      + intros H; inversion H as [| r it rs' items' Hr Hrest]; subst.
        inversion Hr; subst. apply IH in Hrest as [Hf Hs]. rewrite Hs. auto.
    - split; [intros [Hf _]; discriminate | intros H; inversion H; discriminate]. }
  unfold gather_result.
  transitivity (failures (map fetch ids) = [] /\ successes (map fetch ids) = items).
  - destruct (failures (map fetch ids)); split.
    + intros H; inversion H; auto.
    + intros [_ ->]; reflexivity.
    + discriminate.
    + intros [H _]; discriminate.
  - rewrite Hgen. clear Hgen. revert items.
    induction ids as [| u ids IH]; intros items; simpl; split; intros H;
      inversion H; subst; constructor; auto; apply IH; auto.
Qed.

Lemma gather_result_err ids e :
  gather_result gather_pick (map fetch ids) = Err e ->
  exists e0 es, failures (map fetch ids) = e0 :: es /\ e = gather_pick e0 es.
Proof.
  unfold gather_result. destruct (failures _) as [| e0 es]; [discriminate |].
  intros H; inversion H; eauto.
Qed.

Lemma failures_in ids e :
  In e (failures (map fetch ids)) -> exists u, In u ids /\ fetch u = Err e.
Proof.
  induction ids as [| u ids IH]; simpl; [tauto |].
  destruct (fetch u) eqn:Hu; simpl.
  - intros H; destruct (IH H) as (v & ? & ?); eauto.
  - intros [<- | H]; [eauto |]. destruct (IH H) as (v & ? & ?); eauto.
Qed.

Lemma failures_of_err ids u e :
  In u ids -> fetch u = Err e -> failures (map fetch ids) <> [].
Proof.
  induction ids as [| v ids IH]; simpl; [tauto |].
  intros [-> | Hin] Hu.
  - rewrite Hu. discriminate.
  - destruct (fetch v); [apply IH; auto | discriminate].
Qed.

Lemma afu_gather_err urls r e :
  gather_result gather_pick (map fetch urls) = Err e ->
  exists w, afu urls r = (w, Err e).
Proof.
  intros He. destruct (Z_lt_le_dec 0 r) as [Hr | Hr].
  - rewrite afu_unfold_pos by exact Hr. unfold gather. rewrite He. simpl. eauto.
  - rewrite afu_unfold_nonpos by exact Hr. unfold gather. rewrite He. eauto.
Qed.

Lemma Forall2_in_r {A B} (P : A -> B -> Prop) xs ys y :
  Forall2 P xs ys -> In y ys -> exists x, In x xs /\ P x y.
Proof.
  induction 1; simpl; [tauto |].
  intros [-> | Hin]; [eauto |]. destruct (IHForall2 Hin) as (x' & ? & ?); eauto.
Qed.

Lemma Forall2_in_l {A B} (P : A -> B -> Prop) xs ys x :
  Forall2 P xs ys -> In x xs -> exists y, In y ys /\ P x y.
Proof.
  induction 1; simpl; [tauto |].
  intros [-> | Hin]; [eauto |]. destruct (IHForall2 Hin) as (y' & ? & ?); eauto.
Qed.

Lemma for_items_ok_inv body items w out :
  for_items body items = (w, Ok out) ->
  exists subs, Forall2 (fun it s => exists lg, body it = (lg, Ok s)) items subs /\
               out = List.concat subs.
Proof.
  revert w out. induction items as [| it items IH]; simpl; intros w out H.
  - inversion H; subst. exists []. auto.
  - apply bind_ok_inv in H as (w1 & s & w2 & Hb & Hr & _).
    apply bind_ok_inv in Hr as (w3 & more & w4 & Hm & Hret & _).
    inversion Hret; subst.
    destruct (IH _ _ Hm) as (subs & Hsubs & ->).
    exists (s :: subs). split; [constructor; eauto | reflexivity].
Qed.

Lemma for_items_ok_blocks body items w out :
  for_items body items = (w, Ok out) ->
  exists ps, Forall2 (fun it p => body it = (fst p, Ok (snd p))) items ps /\
             w = List.concat (map fst ps) /\ out = List.concat (map snd ps).
Proof.
  revert w out. induction items as [| it items IH]; simpl; intros w out H.
  - inversion H; subst. exists []. auto.
  - apply bind_ok_inv in H as (w1 & s & w2 & Hb & Hr & ->).
    apply bind_ok_inv in Hr as (w3 & more & w4 & Hm & Hret & ->).
    inversion Hret; subst.
    destruct (IH _ _ Hm) as (ps & Hps & -> & ->).
    exists ((w1, s) :: ps). simpl. rewrite app_nil_r.
    split; [constructor; auto | auto].
Qed.

Lemma for_items_err_inv body items w e :
  for_items body items = (w, Err e) ->
  exists it w', In it items /\ body it = (w', Err e).
Proof.
  revert w. induction items as [| it items IH]; simpl; intros w H.
  - discriminate.
  - apply bind_err_inv in H as [(w1 & Hb) | (w1 & s & w2 & Hb & Hr)]; [eauto |].
    apply bind_err_inv in Hr as [(w3 & Hm) | (w3 & m & w4 & _ & Hret)].
    + destruct (IH _ Hm) as (it' & w' & ? & ?). eauto.
    + discriminate.
Qed.

Lemma for_items_err_member body items it :
  In it items -> (exists w e, body it = (w, Err e)) ->
  exists w e, for_items body items = (w, Err e).
Proof.
  intros Hin Hit. induction items as [| it' items IH]; simpl in *; [tauto |].
  destruct (body it') as [w1 [s | e1]] eqn:Hb.
  - assert (Hrest : exists w e, for_items body items = (w, Err e)).
    { destruct Hin as [-> | Hin]; [| apply IH; auto].
      destruct Hit as (w & e & Hit). congruence. }
    destruct Hrest as (w & e & Hr). rewrite bind_ok_l. simpl.
    rewrite Hr. simpl. eauto.
  - simpl. eauto.
Qed.

Lemma for_items_all_nil body items :
  (forall it, In it items -> body it = ret []) -> for_items body items = ret [].
Proof.
  induction items as [| it items IH]; simpl; intros H; [reflexivity |].
  rewrite H by auto. rewrite IH by auto. reflexivity.
Qed.

(** The batch of the level always comes first. *)
Lemma afu_batch_prefix ids r w out :
  afu ids r = (w, Ok out) ->
  exists items rest, out = items ++ rest /\
    Forall2 (fun u it => fetch u = Ok it) ids items.
Proof.
  destruct (Z_lt_le_dec 0 r) as [Hr | Hr].
  - rewrite afu_unfold_pos by exact Hr. intros H.
    apply bind_ok_inv in H as (w1 & items & w2 & Hg & Hr' & _).
    apply bind_ok_inv in Hr' as (w3 & nw & w4 & _ & Hret & _).
    inversion Hret; subst. inversion Hg; subst.
    exists items, nw. split; [reflexivity |]. apply gather_result_ok; auto.
  - rewrite afu_unfold_nonpos by exact Hr. intros H. inversion H; subst.
    exists out, []. rewrite app_nil_r. split; [reflexivity |].
    apply gather_result_ok; auto.
Qed.

Lemma fetched_in_nonempty r ids r' u :
  fetched_in r ids r' u -> ids <> [].
Proof. intros H; destruct H; intros ->; simpl in *; contradiction. Qed.

Lemma fetched_in_lift r ids v it kids r' u :
  0 < r -> In v ids -> fetch v = Ok it -> truthy it = true ->
  child_ids it = Ok kids -> fetched_in (r - 1) (map item_url kids) r' u ->
  fetched_in r ids r' u.
Proof. intros; eapply fetched_below; eauto. Qed.

Lemma raised_lift r ids v it kids e :
  0 < r -> In v ids -> fetch v = Ok it -> truthy it = true ->
  child_ids it = Ok kids -> raised (r - 1) (map item_url kids) e ->
  raised r ids e.
Proof.
  intros Hr Hv Hf Ht Hc H. destruct H.
  - eapply raised_fetch; [eapply fetched_in_lift |]; eauto.
  - eapply raised_child; [eapply fetched_in_lift | | | |]; eauto.
Qed.

Section Pick.

Hypothesis pick_in : forall e es, In (gather_pick e es) (e :: es).

Lemma gather_err_raised ids r e :
  gather_result gather_pick (map fetch ids) = Err e -> raised r ids e.
Proof.
  intros H. apply gather_result_err in H as (e0 & es & Hf & ->).
  assert (Hin : In (gather_pick e0 es) (failures (map fetch ids)))
    by (rewrite Hf; apply pick_in).
  apply failures_in in Hin as (u & Hu & He).
  eapply raised_fetch; [apply fetched_here; exact Hu | exact He].
Qed.

(** Every exception escaping [async_fetch_urls] comes from a step of the
    expansion. *)
Lemma afu_err_raised n r ids w e :
  Z.to_nat r = n -> afu ids r = (w, Err e) -> raised r ids e.
Proof.
  revert r ids w e. induction n as [| n IH]; intros r ids w e Hn H.
  - rewrite afu_unfold_nonpos in H by lia. inversion H; subst.
    apply gather_err_raised; auto.
  - assert (Hr : 0 < r) by lia.
    rewrite afu_unfold_pos in H by exact Hr.
    apply bind_err_inv in H as [(w1 & Hg) | (w1 & items & w2 & Hg & H)].
    { inversion Hg; subst. apply gather_err_raised; auto. }
    inversion Hg as [[Hw Hitems]]; subst.
    apply gather_result_ok in Hitems.
    apply bind_err_inv in H as [(w3 & Hfor) | (w3 & nw & w4 & _ & Hret)];
      [| discriminate].
    apply for_items_err_inv in Hfor as (it & w' & Hin & Hit).
    destruct (Forall2_in_r _ _ _ _ Hitems Hin) as (v & Hv & Hfv).
    unfold expand_item in Hit. destruct (truthy it) eqn:Ht; [| discriminate].
    unfold lift in Hit. destruct (child_ids it) as [kids | e1] eqn:Hc.
    + rewrite bind_ok_l in Hit. simpl in Hit.
      destruct (map item_url kids) as [| u us] eqn:Hm;
        [inversion Hit |].
      destruct (afu (u :: us) (r - 1)) as [w5 res] eqn:Hrec.
      simpl in Hit. inversion Hit; subst.
      rewrite <- Hm in Hrec.
      eapply raised_lift; eauto. eapply IH; [lia | exact Hrec].
    + simpl in Hit. inversion Hit; subst.
      eapply raised_child; [apply fetched_here; exact Hv | exact Hr | exact Hfv | exact Ht | exact Hc].
Qed.

End Pick.

(** A failing fetch anywhere in the expansion makes the whole call fail. *)
Lemma afu_fail_of_fetched r ids r' u e :
  fetched_in r ids r' u -> fetch u = Err e ->
  exists w e', afu ids r = (w, Err e').
Proof.
  intros H Hu. revert Hu.
  induction H as [r ids u Hin | r ids v it kids r' u Hr Hv Hf Ht Hc Hsub IH]; intros Hu.
  - assert (Hnf := failures_of_err _ _ _ Hin Hu).
    destruct (gather_result gather_pick (map fetch ids)) as [items | e'] eqn:Hg.
    + unfold gather_result in Hg. destruct (failures _); [contradiction | discriminate].
    + destruct (afu_gather_err _ r _ Hg) as (w & Hw). eauto.
  - destruct (gather_result gather_pick (map fetch ids)) as [items | e'] eqn:Hg.
    2:{ destruct (afu_gather_err _ r _ Hg) as (w & Hw). eauto. }
    rewrite afu_unfold_pos by exact Hr. unfold gather. rewrite Hg. simpl.
    apply gather_result_ok in Hg.
    destruct (Forall2_in_l _ _ _ _ Hg Hv) as (it' & Hin & Hit'). rewrite Hf in Hit'.
    inversion Hit'; subst it'.
    destruct (for_items_err_member (expand_item afu r) items it Hin) as (w & e'' & Hfor).
    { unfold expand_item. rewrite Ht. unfold lift. rewrite Hc, bind_ok_l. simpl.
      destruct (IH Hu) as (w & e' & Hw).
      destruct (map item_url kids) eqn:Hm.
      - exfalso. exact (fetched_in_nonempty _ _ _ _ Hsub eq_refl).
      - rewrite Hw. simpl. eauto. }
    rewrite Hfor. simpl. eauto.
Qed.

Lemma bind_log_in {A B} (m : M A) (f : A -> M B) u :
  In u (fst (bind m f)) ->
  In u (fst m) \/ exists a, snd m = Ok a /\ In u (fst (f a)).
Proof.
  destruct m as [w [a | e]]; simpl; [| auto].
  destruct (f a) as [w' r'] eqn:Hf. simpl. rewrite in_app_iff.
  intros [H | H]; [auto | right; exists a; rewrite Hf; auto].
Qed.

Lemma for_items_log_in body items u :
  In u (fst (for_items body items)) ->
  exists it, In it items /\ In u (fst (body it)).
Proof.
  induction items as [| it items IH]; simpl; [tauto |].
  intros H. apply bind_log_in in H as [H | (s & _ & H)]; [eauto |].
  apply bind_log_in in H as [H | (m & _ & H)]; [| simpl in H; tauto].
  destruct (IH H) as (it' & ? & ?). eauto.
Qed.

(** Every request belongs to the expansion, at a level whose budget lies
    between [min r 0] and [r]. *)
Lemma afu_log_depth n r ids u :
  Z.to_nat r = n -> In u (fst (afu ids r)) ->
  exists r', fetched_in r ids r' u /\ Z.min r 0 <= r' <= r.
Proof.
  revert r ids u. induction n as [| n IH]; intros r ids u Hn H.
  - rewrite afu_unfold_nonpos in H by lia. simpl in H.
    exists r. split; [apply fetched_here; exact H | lia].
  - assert (Hr : 0 < r) by lia. rewrite afu_unfold_pos in H by exact Hr.
    apply bind_log_in in H as [H | (items & Hg & H)].
    { exists r. split; [apply fetched_here; exact H | lia]. }
    simpl in Hg. apply gather_result_ok in Hg.
    apply bind_log_in in H as [H | (nw & _ & H)]; [| simpl in H; tauto].
    apply for_items_log_in in H as (it & Hin & H).
    destruct (Forall2_in_r _ _ _ _ Hg Hin) as (v & Hv & Hfv).
    unfold expand_item in H. destruct (truthy it) eqn:Ht; [| simpl in H; tauto].
    apply bind_log_in in H as [H | (kids & Hc & H)]; [simpl in H; tauto |].
    simpl in Hc. destruct (map item_url kids) as [| x xs] eqn:Hm; [simpl in H; tauto |].
    rewrite <- Hm in H.
    destruct (IH (r - 1) _ u ltac:(lia) H) as (r' & Hsub & Hb).
    exists r'. split; [eapply fetched_below; eauto | lia].
Qed.

Lemma for_items_log_ok (P : url -> json -> Prop) body items w out :
  (forall it lg s, In it items -> body it = (lg, Ok s) -> Forall2 P lg s) ->
  for_items body items = (w, Ok out) -> Forall2 P w out.
Proof.
  revert w out. induction items as [| it items IH]; simpl; intros w out Hb H.
  - inversion H; constructor.
  - apply bind_ok_inv in H as (w1 & s & w2 & H1 & H2 & ->).
    apply bind_ok_inv in H2 as (w3 & m & w4 & H3 & H4 & ->).
    inversion H4; subst. rewrite app_nil_r.
    apply Forall2_app; [eapply Hb; eauto | eapply IH; eauto].
Qed.

(** The result lists the answers to the requests of the log, in order. *)
Lemma afu_log_matches n r ids w out :
  Z.to_nat r = n -> afu ids r = (w, Ok out) ->
  Forall2 (fun u it => fetch u = Ok it) w out.
Proof.
  revert r ids w out. induction n as [| n IH]; intros r ids w out Hn H.
  - rewrite afu_unfold_nonpos in H by lia. inversion H; subst.
    apply gather_result_ok; auto.
  - assert (Hr : 0 < r) by lia. rewrite afu_unfold_pos in H by exact Hr.
    apply bind_ok_inv in H as (w1 & items & w2 & Hg & H & ->).
    apply bind_ok_inv in H as (w3 & nw & w4 & Hfor & Hret & ->).
    inversion Hret; subst. inversion Hg as [[Hw Hitems]]; subst.
    rewrite app_nil_r. apply Forall2_app; [apply gather_result_ok; auto |].
    eapply for_items_log_ok; [| exact Hfor].
    intros it lg s _ Hit. unfold expand_item in Hit.
    destruct (truthy it); [| inversion Hit; constructor].
    apply bind_ok_inv in Hit as (w5 & kids & w6 & Hl & Hs & ->).
    inversion Hl; subst. simpl.
    destruct (map item_url kids) as [| x xs] eqn:Hm; [inversion Hs; constructor |].
    rewrite <- Hm in Hs. eapply IH; [| exact Hs]. lia.
Qed.

Lemma gather_total ids :
  (forall u, exists it, fetch u = Ok it) ->
  exists items, Forall2 (fun u it => fetch u = Ok it) ids items.
Proof.
  intros Hf. induction ids as [| u ids IH]; [exists []; constructor |].
  destruct (Hf u) as (it & Hit). destruct IH as (items & Hitems).
  exists (it :: items). constructor; auto.
Qed.

Lemma for_items_total body items :
  (forall it, In it items -> exists lg s, body it = (lg, Ok s)) ->
  exists w out, for_items body items = (w, Ok out).
Proof.
  induction items as [| x items IH]; intros Hb.
  { exists [], []. reflexivity. }
  cbn [for_items]. destruct (Hb x (or_introl eq_refl)) as (lg & s & Hs).
  destruct IH as (w & out & Hw); [intros it Hin; apply Hb; right; exact Hin |].
  rewrite Hs, bind_ok_l. simpl. rewrite Hw. simpl. eauto.
Qed.

(** When every fetch answers and children can always be extracted, the
    expansion succeeds. *)
Lemma afu_total n r ids :
  (forall u, exists it, fetch u = Ok it /\
     (truthy it = false \/ exists kids, child_ids it = Ok kids)) ->
  Z.to_nat r = n -> exists w out, afu ids r = (w, Ok out).
Proof.
  intros Hf. revert r ids. induction n as [| n IH]; intros r ids Hn.
  - destruct (gather_total ids) as (items & Hitems).
    { intros u. destruct (Hf u) as (it & ? & _). eauto. }
    rewrite afu_unfold_nonpos by lia. unfold gather.
    rewrite (proj2 (gather_result_ok ids items) Hitems). eauto.
  - assert (Hr : 0 < r) by lia. rewrite afu_unfold_pos by exact Hr.
    destruct (gather_total ids) as (items & Hitems).
    { intros u. destruct (Hf u) as (it & ? & _). eauto. }
    unfold gather. rewrite (proj2 (gather_result_ok ids items) Hitems).
    rewrite bind_ok_l.
    destruct (for_items_total (expand_item afu r) items) as (w & out & Hw).
    + intros it Hin. destruct (Forall2_in_r _ _ _ _ Hitems Hin) as (v & _ & Hv).
      destruct (Hf v) as (it' & Hv' & Hok). rewrite Hv in Hv'.
      inversion Hv'; subst it'.
      unfold expand_item. destruct (truthy it) eqn:Ht; [| exists [], []; reflexivity].
      destruct Hok as [Hok | (kids & Hc)]; [congruence |].
      unfold lift. rewrite Hc, bind_ok_l.
      destruct (map item_url kids) as [| x xs] eqn:Hm; [exists [], []; reflexivity |].
      rewrite <- Hm. destruct (IH (r - 1) (map item_url kids) ltac:(lia))
        as (w' & out' & Hw'). rewrite Hw'. simpl. eauto.
    + rewrite Hw. simpl. eauto.
Qed.

Lemma child_ids_of_list_fields d ks ss :
  list_field d "kids" ks -> list_field d "submitted" ss ->
  child_ids (JDict d) = Ok (match ks with [] => ss | _ => ks end).
Proof.
  intros Hk Hs. unfold child_ids, py_get. unfold list_field in Hk, Hs.
  destruct (dict_get d "kids") as [k |];
    [destruct k as [| | | | l |]; try contradiction |]; subst;
    [| destruct l as [| a l]; simpl; [| reflexivity] |];
    simpl; destruct (dict_get d "submitted") as [s |];
    try (destruct s as [| | | | l' |]; try contradiction); subst; simpl;
    try reflexivity; destruct l'; reflexivity.
Qed.

(** A single fetched item whose children cannot be extracted makes the
    call raise that error. *)
Lemma afu_single_child_err r u it e :
  0 < r -> fetch u = Ok it -> truthy it = true -> child_ids it = Err e ->
  afu [u] r = ([u], Err e).
Proof.
  intros Hr Hu Ht Hc. rewrite afu_unfold_pos by exact Hr.
  unfold gather, gather_result. simpl. rewrite Hu. simpl.
  unfold expand_item. rewrite Ht. unfold lift. rewrite Hc. reflexivity.
Qed.

End Facts.

Section Claims.

Variable url : Type.
Variable item_url : json -> url.
Variable fetch : url -> result json.
Variable gather_pick : exn -> list exn -> exn.

Local Abbreviation ret := (@ret url _).
Local Abbreviation gather := (gather url fetch gather_pick).
Local Abbreviation for_items := (for_items url).
Local Abbreviation expand_item := (expand_item url item_url).
Local Abbreviation afu := (async_fetch_urls url item_url fetch gather_pick).
Local Abbreviation fetched_in := (fetched_in url item_url fetch).
Local Abbreviation raised := (raised url item_url fetch).

(** A falsy fetch result ([null] or [{}]) keeps its slot in the batch and
    adds nothing below it. *)
Lemma afu_falsy_entry r pre x post j :
  truthy j = false -> fetch x = Ok j ->
  (forall w out, afu (pre ++ x :: post) r = (w, Ok out) ->
     nth_error out (List.length pre) = Some j) /\
  (forall sub, expand_item sub r j = ret []) /\
  afu [x] r = ([x], Ok [j]).
Proof.
  intros Hj Hx. split; [| split].
  - intros w out H. apply afu_batch_prefix in H as (items & rest & -> & Hf).
    apply Forall2_app_inv_l in Hf as (l1 & l2 & Hpre & Hl2 & ->).
    inversion Hl2 as [| ? it ? l2' Hit Hpost]; subst.
    rewrite Hx in Hit. inversion Hit; subst.
    rewrite <- app_assoc, nth_error_app2 by (apply Forall2_length in Hpre; lia).
    rewrite (Forall2_length Hpre), Nat.sub_diag. reflexivity.
  - intros sub. unfold expand_item. rewrite Hj. reflexivity.
  - assert (Hg : gather [x] = ([x], Ok [j])).
    { unfold gather, gather_result. simpl. rewrite Hx. reflexivity. }
    destruct (Z_lt_le_dec 0 r) as [Hr | Hr].
    + rewrite afu_unfold_pos by exact Hr. rewrite Hg. simpl.
      unfold expand_item. rewrite Hj. reflexivity.
    + rewrite afu_unfold_nonpos by exact Hr. exact Hg.
Qed.

(** C1 (amended): with [recursive > 0] the result is the batch of the
    level followed, parent by parent in batch order, by the complete
    expansion of that parent's children with [recursive - 1]
    ([expand_item]); the children of different parents are not merged
    into one level. *)
Theorem expand_per_parent r ids w out :
  0 < r -> afu ids r = (w, Ok out) ->
  exists items subs,
    Forall2 (fun u it => fetch u = Ok it) ids items /\
    Forall2 (fun it s => exists lg, expand_item afu r it = (lg, Ok s)) items subs /\
    out = items ++ List.concat subs.
Proof.
  intros Hr H. rewrite afu_unfold_pos in H by exact Hr.
  apply bind_ok_inv in H as (w1 & items & w2 & Hg & H & _).
  apply bind_ok_inv in H as (w3 & nw & w4 & Hfor & Hret & _).
  inversion Hret; subst. inversion Hg as [[Hw Hitems]].
  apply gather_result_ok in Hitems.
  apply for_items_ok_inv in Hfor as (subs & Hsubs & ->).
  exists items, subs. auto.
Qed.

(** C2: if a fetch reached by the expansion fails, the whole call fails
    with no result; the exception reported is one raised by a step of the
    expansion, hence the failing fetch's own when it is the only one. *)
Theorem expand_failure_propagates r ids r' u e :
  (forall e0 es, In (gather_pick e0 es) (e0 :: es)) ->
  fetched_in r ids r' u -> fetch u = Err e ->
  (exists w e', afu ids r = (w, Err e') /\ raised r ids e') /\
  ((forall e', raised r ids e' -> e' = e) -> exists w, afu ids r = (w, Err e)).
Proof.
  intros Hpick Hu He.
  destruct (afu_fail_of_fetched url item_url fetch gather_pick _ _ _ _ _ Hu He) as (w & e' & Hw).
  assert (Hraised : raised r ids e')
    by exact (afu_err_raised _ _ _ _ Hpick _ _ _ _ _ eq_refl Hw).
  split; [eauto |].
  intros Huniq. rewrite <- (Huniq _ Hraised). eauto.
Qed.

(** C3: the children followed are those of ['kids'] when it is a
    non-empty array, otherwise those of ['submitted'], otherwise none. *)
Theorem child_ids_first_nonempty d ks ss :
  list_field d "kids" ks -> list_field d "submitted" ss ->
  child_ids (JDict d) = Ok (match ks with [] => ss | _ => ks end) /\
  (forall sub r, d <> [] ->
     expand_item sub r (JDict d) =
     match map item_url (match ks with [] => ss | _ => ks end) with
     | [] => ret []
     | urls => sub urls (r - 1)
     end).
Proof.
  intros Hk Hs.
  assert (Hc : child_ids (JDict d) = Ok (match ks with [] => ss | _ => ks end)).
  { unfold child_ids, py_get. unfold list_field in Hk, Hs.
    destruct (dict_get d "kids") as [k |];
      [destruct k as [| | | | l |]; try contradiction |]; subst;
      [| destruct l as [| a l]; simpl; [| reflexivity] |];
      simpl; destruct (dict_get d "submitted") as [s |];
      try (destruct s as [| | | | l' |]; try contradiction); subst; simpl;
      try reflexivity; destruct l'; reflexivity. }
  split; [exact Hc |].
  intros sub r Hd. unfold expand_item.
  destruct d as [| kv d]; [contradiction |]. cbn [truthy].
  unfold lift. rewrite Hc, bind_ok_l. simpl.
  destruct (match map item_url _ with [] => ret [] | _ => _ end); reflexivity.
Qed.

(** C4: with [recursive = 0] exactly the given URLs are requested and the
    result, when there is one, holds the fetched items in input order. *)
Theorem expand_zero_batch ids :
  fst (async_fetch_urls url item_url fetch gather_pick ids 0) = ids /\
  (forall items, snd (async_fetch_urls url item_url fetch gather_pick ids 0) = Ok items <->
     Forall2 (fun u it => fetch u = Ok it) ids items).
Proof.
  rewrite afu_unfold_nonpos by lia. split; [reflexivity |].
  intros items. apply gather_result_ok.
Qed.

(** C5: when no fetched item of the batch has children, a positive budget
    returns the batch alone, as budget 0 does. *)
Theorem expand_leaves_only r ids :
  0 < r ->
  (forall u it, In u ids -> fetch u = Ok it ->
     truthy it = false \/ child_ids it = Ok []) ->
  afu ids r = afu ids 0.
Proof.
  intros Hr Hleaf.
  rewrite afu_unfold_pos by exact Hr. rewrite (afu_unfold_nonpos _ _ _ _ ids 0) by lia.
  unfold gather. destruct (gather_result gather_pick (map fetch ids)) as [items | e] eqn:Hg;
    [| reflexivity].
  apply gather_result_ok in Hg.
  rewrite bind_ok_l.
  rewrite for_items_all_nil.
  - simpl. rewrite !app_nil_r. reflexivity.
  - intros it Hin. destruct (Forall2_in_r _ _ _ _ Hg Hin) as (u & Hu & Hf).
    unfold expand_item. destruct (Hleaf u it Hu Hf) as [Ht | Hc].
    + rewrite Ht. reflexivity.
    + destruct (truthy it); [| reflexivity].
      unfold lift. rewrite Hc. reflexivity.
Qed.

(** C6: an absent item ([null]) is a result, not an error: it occupies its
    slot of the batch, and contributes no children whatever the budget. *)
Theorem expand_absent_entry r pre x post :
  fetch x = Ok JNull ->
  (forall w out, afu (pre ++ x :: post) r = (w, Ok out) ->
     nth_error out (List.length pre) = Some JNull) /\
  (forall sub, expand_item sub r JNull = ret []) /\
  afu [x] r = ([x], Ok [JNull]).
Proof. apply afu_falsy_entry. reflexivity. Qed.

(** C7: no deduplication, for any input and budget. Every occurrence
    of a URL in [ids], repeated or not, is requested in the batch and gets
    its own item and its own expansion block, computed from that item alone;
    and an item's children are handed to the recursive call unfiltered, so a
    URL already fetched at a higher level is fetched again below. *)
Theorem expand_duplicates ids r w out :
  async_fetch_urls url item_url fetch gather_pick ids r = (w, Ok out) ->
  (exists items ps,
     Forall2 (fun u it => fetch u = Ok it) ids items /\
     Forall2 (fun it p =>
                if 0 <? r then expand_item afu r it = (fst p, Ok (snd p))
                else p = ([], [])) items ps /\
     w = ids ++ List.concat (map fst ps) /\
     out = items ++ List.concat (map snd ps)) /\
  (forall it kids, 0 < r -> truthy it = true -> child_ids it = Ok kids -> kids <> [] ->
     expand_item afu r it = async_fetch_urls url item_url fetch gather_pick (map item_url kids) (r - 1)).
Proof.
  intros H. split.
  - destruct (Z_lt_le_dec 0 r) as [Hr | Hr].
    + replace (0 <? r) with true by (symmetry; apply Z.ltb_lt; exact Hr).
      rewrite afu_unfold_pos in H by exact Hr.
      apply bind_ok_inv in H as (w1 & items & w2 & Hg & H & ->).
      apply bind_ok_inv in H as (w3 & nw & w4 & Hfor & Hret & ->).
      inversion Hret; subst. inversion Hg as [[Hw Hitems]]; subst.
      apply gather_result_ok in Hitems.
      apply for_items_ok_blocks in Hfor as (ps & Hps & -> & ->).
      exists items, ps. rewrite app_nil_r. auto.
    + replace (0 <? r) with false by (symmetry; apply Z.ltb_ge; exact Hr).
      rewrite afu_unfold_nonpos in H by exact Hr. inversion H as [[Hw Hitems]]; subst.
      apply gather_result_ok in Hitems.
      exists out, (map (fun _ => ([] : list url, [] : list json)) out).
      split; [exact Hitems |].
      assert (Hnil : forall A (f : list url * list json -> list A),
                 f ([], []) = [] ->
                 List.concat (map f (map (fun _ => ([] : list url, [] : list json)) out)) = []).
      { intros A f Hf. clear - Hf. induction out as [| o out IH]; simpl; [reflexivity |].
        rewrite IH, Hf. reflexivity. }
      split; [| rewrite !Hnil by reflexivity; rewrite !app_nil_r; auto].
      clear. induction out; simpl; constructor; auto.
  - intros it kids Hr Ht Hc Hk. unfold expand_item. rewrite Ht.
    unfold lift. rewrite Hc, bind_ok_l.
    destruct kids as [| k ks]; [contradiction |]. simpl map.
    destruct (async_fetch_urls url item_url fetch gather_pick (item_url k :: map item_url ks) (r - 1));
      reflexivity.
Qed.

(** C8: the first [len(urls)] entries of any result are the fetched
    items of [urls], in order. *)
Theorem expand_batch_first ids r w out :
  async_fetch_urls url item_url fetch gather_pick ids r = (w, Ok out) ->
  exists items rest, out = items ++ rest /\
    Forall2 (fun u it => fetch u = Ok it) ids items /\
    (List.length ids <= List.length out)%nat.
Proof.
  intros H. destruct (afu_batch_prefix _ _ _ _ _ _ _ _ H) as (items & rest & -> & Hf).
  exists items, rest. split; [reflexivity | split; [exact Hf |]].
  rewrite length_app, (Forall2_length Hf). lia.
Qed.

(** C9: a negative [recursive] behaves as 0. *)
Theorem expand_negative_budget ids r :
  r < 0 -> async_fetch_urls url item_url fetch gather_pick ids r = async_fetch_urls url item_url fetch gather_pick ids 0.
Proof.
  intros Hr. rewrite !afu_unfold_nonpos by lia. reflexivity.
Qed.

(** C10: an empty object [{}] is falsy: it keeps its slot in the batch
    but contributes no children. *)
Theorem expand_empty_dict_entry r pre x post :
  fetch x = Ok (JDict []) ->
  (forall w out, afu (pre ++ x :: post) r = (w, Ok out) ->
     nth_error out (List.length pre) = Some (JDict [])) /\
  (forall sub, expand_item sub r (JDict []) = ret []) /\
  afu [x] r = ([x], Ok [JDict []]).
Proof. apply afu_falsy_entry. reflexivity. Qed.

End Claims.

Section Extras.

Variable url : Type.
Variable item_url : json -> url.
Variable fetch : url -> result json.
Variable gather_pick : exn -> list exn -> exn.
Variable user_url : string -> url.

Local Abbreviation afu := (async_fetch_urls url item_url fetch gather_pick).
Local Abbreviation expand_item := (expand_item url item_url).

(** An empty URL list makes no request and returns no item, whatever the
    budget. *)
Theorem expand_empty_input r :
  async_fetch_urls url item_url fetch gather_pick [] r = ([], Ok []).
Proof.
  destruct (Z_lt_le_dec 0 r) as [Hr | Hr].
  - rewrite afu_unfold_pos by exact Hr. reflexivity.
  - rewrite afu_unfold_nonpos by exact Hr. reflexivity.
Qed.

(** The result lists the answer to each request, in the order the
    requests were issued: one item per request. *)
Theorem expand_results_match_requests ids r w out :
  async_fetch_urls url item_url fetch gather_pick ids r = (w, Ok out) ->
  Forall2 (fun u it => fetch u = Ok it) w out.
Proof. apply (afu_log_matches _ _ _ _ (Z.to_nat r)). reflexivity. Qed.

(** Every request, also in a call that fails, belongs to the expansion of
    [ids], at a level at most [max r 0] deep (budget [r'] with
    [min r 0 <= r' <= r]). *)
Theorem expand_requests_within_depth ids r u :
  In u (fst (async_fetch_urls url item_url fetch gather_pick ids r)) ->
  exists r', fetched_in url item_url fetch r ids r' u /\ Z.min r 0 <= r' <= r.
Proof. apply (afu_log_depth _ _ _ _ (Z.to_nat r)). reflexivity. Qed.

(** A truthy item that is not a JSON object (a non-empty array, a
    non-zero number, ...) is returned with budget 0 but makes any positive
    budget raise [AttributeError] from [item.get]. *)
Theorem expand_non_dict_item r u it :
  0 < r -> fetch u = Ok it -> truthy it = true -> (forall d, it <> JDict d) ->
  async_fetch_urls url item_url fetch gather_pick [u] r = ([u], Err AttributeError) /\
  async_fetch_urls url item_url fetch gather_pick [u] 0 = ([u], Ok [it]).
Proof.
  intros Hr Hu Ht Hd. split.
  - apply (afu_single_child_err _ _ _ _ r u it); auto.
    destruct it; try reflexivity. exfalso. eapply Hd; reflexivity.
  - rewrite afu_unfold_nonpos by lia. unfold gather, gather_result. simpl.
    rewrite Hu. reflexivity.
Qed.

(** A non-zero number under ['kids'] is not iterable: with a positive
    budget the call raises [TypeError]. *)
Theorem expand_numeric_kids r u d z :
  0 < r -> fetch u = Ok (JDict d) -> dict_get d "kids" = Some (JInt z) -> z <> 0 ->
  async_fetch_urls url item_url fetch gather_pick [u] r = ([u], Err TypeError).
Proof.
  intros Hr Hu Hk Hz. apply (afu_single_child_err _ _ _ _ r u (JDict d)); auto.
  - destruct d; [discriminate | reflexivity].
  - unfold child_ids, py_get. rewrite Hk. simpl.
    destruct (z =? 0) eqn:Hz0; [apply Z.eqb_eq in Hz0; contradiction | reflexivity].
Qed.

(** When the server answers every request with [null], [{}] or an object
    whose ['kids'] and ['submitted'] are missing, [null] or arrays, the
    expansion never raises, whatever the budget. *)
Theorem expand_well_formed_succeeds ids r :
  (forall u, exists it, fetch u = Ok it /\ well_formed it) ->
  exists w out, async_fetch_urls url item_url fetch gather_pick ids r = (w, Ok out).
Proof.
  intros Hf. apply (afu_total _ _ _ _ (Z.to_nat r)); [| reflexivity].
  intros u. destruct (Hf u) as (it & Hu & Hw). exists it. split; [exact Hu |].
  destruct Hw as [Ht | (d & ks & ss & -> & Hk & Hs)]; [auto |].
  right. eexists. apply child_ids_of_list_fields; eauto.
Qed.

(** For a user record without ['kids'], [get_user_items] with budget 1
    requests the profile, then the ['submitted'] items, and returns the
    record followed by those items. *)
Theorem get_user_items_submitted name d l items :
  list_field d "kids" [] -> list_field d "submitted" l ->
  fetch (user_url name) = Ok (JDict d) ->
  Forall2 (fun k it => fetch (item_url k) = Ok it) l items ->
  get_user_items url item_url fetch gather_pick user_url false name 1 =
  (true, (user_url name :: map item_url l, Done (JDict d :: items))).
Proof.
  intros Hk Hs Hu Hitems.
  assert (Hc : child_ids (JDict d) = Ok l) by exact (child_ids_of_list_fields d [] l Hk Hs).
  assert (Hmap : Forall2 (fun u it => fetch u = Ok it) (map item_url l) items).
  { clear -Hitems. induction Hitems; constructor; auto. }
  assert (He : expand_item afu 1 (JDict d) = (map item_url l, Ok items)).
  { unfold expand_item. destruct l as [| k l'].
    - inversion Hitems; subst.
      destruct (truthy (JDict d)); [unfold lift; rewrite Hc; reflexivity | reflexivity].
    - assert (Ht : truthy (JDict d) = true).
      { destruct d as [| kv d']; [| reflexivity]. unfold list_field in Hs.
        simpl in Hs. discriminate. }
      rewrite Ht. unfold lift. rewrite Hc, bind_ok_l. cbn [map] in Hmap |- *.
      rewrite afu_unfold_nonpos by lia. unfold gather.
      rewrite (proj2 (gather_result_ok _ _ _ _ _) Hmap). reflexivity. }
  assert (Hafu : afu [user_url name] 1 = (user_url name :: map item_url l, Ok (JDict d :: items))).
  { rewrite afu_unfold_pos by lia. unfold gather, gather_result. simpl map.
    rewrite Hu. cbn [failures successes]. rewrite bind_ok_l. cbn [for_items]. rewrite He, bind_ok_l.
    simpl. rewrite !app_nil_r. reflexivity. }
  unfold get_user_items, fetch_urls. rewrite Hafu. reflexivity.
Qed.

(** The command line prints [fetched N posts] where [N] is the number of
    requests made, the user's own record included. *)
Theorem main_prints_request_count a r w lines :
  a <> EmptyString ->
  main url item_url fetch gather_pick user_url (Some a) r = (w, Done lines) ->
  lines = [String.append "fetched " (String.append (string_of_nat (List.length w)) " posts")].
Proof.
  intros Ha. unfold main.
  replace (truthy (JStr a)) with true
    by (simpl; destruct (String.eqb a EmptyString) eqn:E;
        [apply String.eqb_eq in E; contradiction | reflexivity]).
  unfold get_user_items, fetch_urls.
  destruct (afu [user_url a] r) as [w0 [items | e]] eqn:H; intros Heq;
    inversion Heq; subst.
  apply (afu_log_matches _ _ _ _ (Z.to_nat r)) in H; [| reflexivity].
  rewrite (Forall2_length H). reflexivity.
Qed.

(** A user the API does not know ([null] profile) still makes the command
    line print [fetched 1 posts], whatever the budget. *)
Theorem main_unknown_user a r :
  a <> EmptyString -> fetch (user_url a) = Ok JNull ->
  main url item_url fetch gather_pick user_url (Some a) r =
  ([user_url a], Done ["fetched 1 posts"%string]).
Proof.
  intros Ha Hu. unfold main.
  replace (truthy (JStr a)) with true
    by (simpl; destruct (String.eqb a EmptyString) eqn:E;
        [apply String.eqb_eq in E; contradiction | reflexivity]).
  destruct (afu_falsy_entry url item_url fetch gather_pick r [] (user_url a) [] JNull
              eq_refl Hu) as (_ & _ & H).
  unfold get_user_items, fetch_urls. rewrite H. reflexivity.
Qed.

End Extras.

Example run_forest :
  run tree_fetch [JInt 1; JInt 2] 2 =
  ([JInt 1; JInt 2; JInt 3; JInt 5; JInt 4],
   Ok [hn_item 1 [3]; hn_item 2 [4]; hn_item 3 [5]; hn_item 5 []; hn_item 4 []]).
Proof. vm_compute. reflexivity. Qed.

Example run_forest_fail :
  run failing_fetch [JInt 1; JInt 2] 2 = ([JInt 1; JInt 2; JInt 3; JInt 5], Err TransportError).
Proof. vm_compute. reflexivity. Qed.

(** ** Witnesses and counterexample *)

Lemma expand_per_parent_witness :
  exists items subs,
    Forall2 (fun u it => tree_fetch u = Ok it) [JInt 1; JInt 2] items /\
    Forall2 (fun it s => exists lg,
      expand_item json (fun j => j)
        (async_fetch_urls json (fun j => j) tree_fetch first_pick) 2 it = (lg, Ok s))
      items subs /\
    [hn_item 1 [3]; hn_item 2 [4]; hn_item 3 [5]; hn_item 5 []; hn_item 4 []] =
      items ++ List.concat subs.
Proof.
  apply (expand_per_parent json (fun j => j) tree_fetch first_pick 2 [JInt 1; JInt 2]
           [JInt 1; JInt 2; JInt 3; JInt 5; JInt 4]).
  - lia.
  - vm_compute. reflexivity.
Defined.

(** C1 fails: with A=1, B=2, C=3, D=4, E=5 (A -> C -> E, B -> D) and
    budget 2, E (depth 3) comes before D (depth 2). *)
Lemma expand_not_level_order :
  snd (run tree_fetch [JInt 1; JInt 2] 2) =
    Ok [hn_item 1 [3]; hn_item 2 [4]; hn_item 3 [5]; hn_item 5 []; hn_item 4 []] /\
  snd (run tree_fetch [JInt 1; JInt 2] 2) <>
    Ok [hn_item 1 [3]; hn_item 2 [4]; hn_item 3 [5]; hn_item 4 []; hn_item 5 []].
Proof.
  split.
  - vm_compute. reflexivity.
  - vm_compute. intros H. inversion H.
Qed.

Lemma expand_failure_propagates_witness :
  (exists w e', run failing_fetch [JInt 1; JInt 2] 2 = (w, Err e') /\
     raised json (fun j => j) failing_fetch 2 [JInt 1; JInt 2] e') /\
  ((forall e', raised json (fun j => j) failing_fetch 2 [JInt 1; JInt 2] e' ->
      e' = TransportError) ->
   exists w, run failing_fetch [JInt 1; JInt 2] 2 = (w, Err TransportError)).
Proof.
  apply (expand_failure_propagates json (fun j => j) failing_fetch first_pick
           2 [JInt 1; JInt 2] 0 (JInt 5) TransportError).
  - intros e0 es. left. reflexivity.
  - apply (fetched_below json (fun j => j) failing_fetch 2 [JInt 1; JInt 2]
             (JInt 1) (hn_item 1 [3]) [JInt 3]);
      [lia | simpl; auto | reflexivity | reflexivity | reflexivity |].
    apply (fetched_below json (fun j => j) failing_fetch 1 [JInt 3]
             (JInt 3) (hn_item 3 [5]) [JInt 5]);
      [lia | simpl; auto | reflexivity | reflexivity | reflexivity |].
    apply (fetched_here json (fun j => j) failing_fetch 0 [JInt 5] (JInt 5)).
    simpl; auto.
  - reflexivity.
Defined.

Lemma child_ids_first_nonempty_witness :
  child_ids (JDict user_fields) = Ok [JInt 9; JInt 10] /\
  (forall sub r, user_fields <> [] ->
     expand_item json (fun j => j) sub r (JDict user_fields) =
     match [JInt 9; JInt 10] with
     | [] => ret json []
     | urls => sub urls (r - 1)
     end).
Proof.
  apply (child_ids_first_nonempty json (fun j => j) user_fields [] [JInt 9; JInt 10]);
    reflexivity.
Defined.

Lemma expand_leaves_only_witness :
  run tree_fetch [JInt 4; JInt 7; JInt 6] 3 = run tree_fetch [JInt 4; JInt 7; JInt 6] 0.
Proof.
  apply (expand_leaves_only json (fun j => j) tree_fetch first_pick 3
           [JInt 4; JInt 7; JInt 6]).
  - lia.
  - intros u it Hin Hf. simpl in Hin.
    destruct Hin as [<- | [<- | [<- | []]]]; simpl in Hf; inversion Hf; subst;
      [right | left | left]; reflexivity.
Defined.

Lemma expand_absent_entry_witness :
  (forall w out, run tree_fetch ([JInt 1] ++ JInt 7 :: [JInt 2]) 2 = (w, Ok out) ->
     nth_error out 1 = Some JNull) /\
  (forall sub, expand_item json (fun j => j) sub 2 JNull = ret json []) /\
  run tree_fetch [JInt 7] 2 = ([JInt 7], Ok [JNull]).
Proof.
  apply (expand_absent_entry json (fun j => j) tree_fetch first_pick 2
           [JInt 1] (JInt 7) [JInt 2]).
  reflexivity.
Defined.

Lemma expand_duplicates_witness :
  (exists items ps,
     Forall2 (fun u it => dup_fetch u = Ok it) [JInt 1; JInt 1] items /\
     Forall2 (fun it p =>
                if 0 <? 2 then
                  expand_item json (fun j => j)
                    (async_fetch_urls json (fun j => j) dup_fetch first_pick) 2 it =
                  (fst p, Ok (snd p))
                else p = ([], [])) items ps /\
     repeat (JInt 1) 6 = [JInt 1; JInt 1] ++ List.concat (map fst ps) /\
     repeat (hn_item 1 [1]) 6 = items ++ List.concat (map snd ps)) /\
  (forall it kids, 0 < 2 -> truthy it = true -> child_ids it = Ok kids -> kids <> [] ->
     expand_item json (fun j => j) (async_fetch_urls json (fun j => j) dup_fetch first_pick) 2 it =
     run dup_fetch (map (fun j => j) kids) (2 - 1)).
Proof.
  apply (expand_duplicates json (fun j => j) dup_fetch first_pick [JInt 1; JInt 1] 2
           (repeat (JInt 1) 6) (repeat (hn_item 1 [1]) 6)).
  vm_compute. reflexivity.
Defined.

Lemma expand_batch_first_witness :
  exists items rest,
    [hn_item 1 [3]; hn_item 2 [4]; hn_item 3 [5]; hn_item 5 []; hn_item 4 []] =
      items ++ rest /\
    Forall2 (fun u it => tree_fetch u = Ok it) [JInt 1; JInt 2] items /\
    le (List.length [JInt 1; JInt 2])
       (List.length [hn_item 1 [3]; hn_item 2 [4]; hn_item 3 [5]; hn_item 5 []; hn_item 4 []]).
Proof.
  apply (expand_batch_first json (fun j => j) tree_fetch first_pick
           [JInt 1; JInt 2] 2 [JInt 1; JInt 2; JInt 3; JInt 5; JInt 4]).
  vm_compute. reflexivity.
Defined.

Lemma expand_negative_budget_witness :
  run tree_fetch [JInt 1] (-3) = run tree_fetch [JInt 1] 0.
Proof.
  apply (expand_negative_budget json (fun j => j) tree_fetch first_pick [JInt 1] (-3)).
  lia.
Defined.

Lemma expand_empty_dict_entry_witness :
  (forall w out, run tree_fetch ([JInt 1] ++ JInt 6 :: []) 1 = (w, Ok out) ->
     nth_error out 1 = Some (JDict [])) /\
  (forall sub, expand_item json (fun j => j) sub 1 (JDict []) = ret json []) /\
  run tree_fetch [JInt 6] 1 = ([JInt 6], Ok [JDict []]).
Proof.
  apply (expand_empty_dict_entry json (fun j => j) tree_fetch first_pick 1
           [JInt 1] (JInt 6) []).
  reflexivity.
Defined.

(** ** Witnesses of the further properties *)

Lemma expand_results_match_requests_witness :
  Forall2 (fun u it => tree_fetch u = Ok it)
    [JInt 1; JInt 2; JInt 3; JInt 5; JInt 4]
    [hn_item 1 [3]; hn_item 2 [4]; hn_item 3 [5]; hn_item 5 []; hn_item 4 []].
Proof.
  apply (expand_results_match_requests json (fun j => j) tree_fetch first_pick
           [JInt 1; JInt 2] 2).
  vm_compute. reflexivity.
Defined.

Lemma expand_requests_within_depth_witness :
  exists r', fetched_in json (fun j => j) tree_fetch 2 [JInt 1; JInt 2] r' (JInt 5) /\
             Z.min 2 0 <= r' <= 2.
Proof.
  apply (expand_requests_within_depth json (fun j => j) tree_fetch first_pick
           [JInt 1; JInt 2] 2 (JInt 5)).
  vm_compute. right; right; right; left; reflexivity.
Defined.

Lemma expand_non_dict_item_witness :
  run odd_fetch [JInt 1] 1 = ([JInt 1], Err AttributeError) /\
  run odd_fetch [JInt 1] 0 = ([JInt 1], Ok [JList [JInt 2]]).
Proof.
  apply (expand_non_dict_item json (fun j => j) odd_fetch first_pick 1 (JInt 1)
           (JList [JInt 2])).
  - lia.
  - reflexivity.
  - reflexivity.
  - intros d H. discriminate H.
Defined.

Lemma expand_numeric_kids_witness :
  run odd_fetch [JInt 2] 3 = ([JInt 2], Err TypeError).
Proof.
  apply (expand_numeric_kids json (fun j => j) odd_fetch first_pick 3 (JInt 2)
           [("kids"%string, JInt 7)] 7).
  - lia.
  - reflexivity.
  - reflexivity.
  - lia.
Defined.

Ltac solve_well_formed :=
  solve [eexists; split; [reflexivity |
           first [left; reflexivity
                 | right; do 3 eexists; split; [reflexivity | split; reflexivity]]]].

Lemma expand_well_formed_succeeds_witness :
  exists w out, run tree_fetch [JInt 1; JInt 2] 2 = (w, Ok out).
Proof.
  apply (expand_well_formed_succeeds json (fun j => j) tree_fetch first_pick
           [JInt 1; JInt 2] 2).
  intros u. destruct u as [| b | z | str | l | d]; try solve_well_formed.
  destruct z as [| p | p]; try solve_well_formed.
  repeat (destruct p as [p | p |]; try solve_well_formed).
Defined.

Lemma get_user_items_submitted_witness :
  get_user_items json (fun j => j) user_fetch first_pick (fun n => JStr n) false "pg" 1 =
  (true, ([JStr "pg"; JInt 9; JInt 10], Done [JDict user_fields; JNull; JNull])).
Proof.
  apply (get_user_items_submitted json (fun j => j) user_fetch first_pick (fun n => JStr n)
           "pg" user_fields [JInt 9; JInt 10] [JNull; JNull]).
  - reflexivity.
  - reflexivity.
  - reflexivity.
  - repeat constructor.
Defined.

Lemma main_prints_request_count_witness :
  ["fetched 3 posts"%string] =
  [String.append "fetched "
     (String.append (string_of_nat (List.length [JStr "pg"; JInt 9; JInt 10])) " posts")].
Proof.
  apply (main_prints_request_count json (fun j => j) user_fetch first_pick (fun n => JStr n)
           "pg" 1 [JStr "pg"; JInt 9; JInt 10]).
  - discriminate.
  - vm_compute. reflexivity.
Defined.

Lemma main_unknown_user_witness :
  main json (fun j => j) tree_fetch first_pick (fun n => JStr n) (Some "ghost"%string) 2 =
  ([JStr "ghost"], Done ["fetched 1 posts"%string]).
Proof.
  apply (main_unknown_user json (fun j => j) tree_fetch first_pick (fun n => JStr n)
           "ghost" 2).
  - discriminate.
  - reflexivity.
Defined.
